(** * Hammock: chainable URL builder and request dispatcher

    A shallow embedding of [hammock.py].  A [Hammock] node holds a name, a
    reference to its parent, the trailing-slash flag, an optional [requests]
    session and whatever else the caller stored in its instance dictionary.
    The parent is embedded by value: the library never reassigns [_name] or
    [_parent] after construction, so a chain is a finite linked list growing
    backward from the newest node to the root.

    Dictionaries (keyword arguments, the [params] bundle, the caller's own
    attributes) are [gmap string pyval]: Python compares dicts regardless of
    insertion order, and so does [gmap]. *)

From Stdlib Require Import Ascii String.
From stdpp Require Import gmap strings list fin_maps pretty.

Set Warnings "-register-all,-clear-no-such-hyp".
Set Default Proof Using "Type".

Open Scope string_scope.
Open Scope list_scope.

(** ** Python values *)

(** The values a caller passes as keyword arguments or stores on a node. *)
Inductive pyval : Type :=
  | VNone
  | VBool (b : bool)
  | VInt (z : Z)
  | VStr (s : string)
  | VDict (d : gmap string pyval).

#[global] Instance pyval_inhabited : Inhabited pyval := populate VNone.

(** Positional arguments of a call: "string representable objects". *)
Inductive segment : Type :=
  | SStr (s : string)
  | SInt (z : Z).

(** [str(arg)] *)
Definition str (arg : segment) : string :=
  match arg with
  | SStr s => s
  | SInt z => pretty z
  end.

(** Python's truth-value protocol: [None], [False], empty strings and empty
    containers are falsy; an object without [__bool__] and [__len__] is
    truthy. *)
Class Truthy (A : Type) := truthy : A → bool.
#[global] Hint Mode Truthy ! : typeclass_instances.

#[global] Instance bool_truthy : Truthy bool := λ b, b.
#[global] Instance string_truthy : Truthy string :=
  λ s, negb (bool_decide (s = "")).
#[global] Instance dict_truthy : Truthy (gmap string pyval) :=
  λ d, negb (bool_decide (size d = 0)).
#[global] Instance option_truthy {A} `{Truthy A} : Truthy (option A) :=
  λ o, match o with Some a => truthy a | None => false end.

(** [x or y] on operands of one type. *)
Definition py_or {A} `{Truthy A} (x y : A) : A :=
  if truthy x then x else y.

(** [c and x or y]: the pre-2.5 conditional idiom.  [c and x] is [x] when
    [c] is truthy and [c] itself (falsy) otherwise, so the whole expression
    is [x or y] when [c] is truthy and [y] when it is not. *)
Definition py_and_or {C A} `{Truthy C, Truthy A} (c : C) (x y : A) : A :=
  if truthy c then py_or x y else y.

(** ** The [requests] collaborator *)

(** A session object, identified by the keyword arguments it was initiated
    with.  [requests.Session] defines neither [__bool__] nor [__len__]. *)
Record Session : Type := { session_kwargs : gmap string pyval }.

#[global] Instance Session_truthy : Truthy Session := λ _, true.

(** [requests.session], applied to the keyword arguments of [__init__] *)
Definition requests_session (kwargs : gmap string pyval) : Session :=
  {| session_kwargs := kwargs |}.

(** ** Chain nodes *)

Inductive Hammock : Type := mkHammock {
  _name : option string;
  _parent : option Hammock;
  _append_slash : bool;
  _session : option Session;
  (** every other entry of the instance dictionary *)
  custom : gmap string pyval
}.

#[global] Instance Hammock_truthy : Truthy Hammock := λ _, true.

(** [Hammock.__init__] *)
Definition __init__ (name : option string) (parent : option Hammock)
    (append_slash : bool) (kwargs : gmap string pyval) : Hammock :=
  {| _name := name;
     _parent := parent;
     _append_slash := append_slash;
     _session := py_and_or kwargs (Some (requests_session kwargs)) None;
     custom := ∅ |}.

(** One entry of [self.__dict__]. *)
Inductive attribute : Type :=
  | A_name (v : option string)
  | A_parent (v : option Hammock)
  | A_append_slash (v : bool)
  | A_session (v : option Session)
  | A_custom (k : string) (v : pyval).

Definition attribute_name (a : attribute) : string :=
  match a with
  | A_name _ => "_name"
  | A_parent _ => "_parent"
  | A_append_slash _ => "_append_slash"
  | A_session _ => "_session"
  | A_custom k _ => k
  end.

(** [self.__dict__.items()] *)
Definition __dict__ (self : Hammock) : list attribute :=
  [ A_name (_name self); A_parent (_parent self);
    A_append_slash (_append_slash self); A_session (_session self) ]
  ++ ((λ kv, A_custom kv.1 kv.2) <$> map_to_list (custom self)).

(** [setattr(obj, attribute, value)] *)
Definition setattr (obj : Hammock) (a : attribute) : Hammock :=
  match a with
  | A_name v =>
      mkHammock v (_parent obj) (_append_slash obj) (_session obj) (custom obj)
  | A_parent v =>
      mkHammock (_name obj) v (_append_slash obj) (_session obj) (custom obj)
  | A_append_slash v =>
      mkHammock (_name obj) (_parent obj) v (_session obj) (custom obj)
  | A_session v =>
      mkHammock (_name obj) (_parent obj) (_append_slash obj) v (custom obj)
  | A_custom k v =>
      mkHammock (_name obj) (_parent obj) (_append_slash obj) (_session obj)
        (<[k:=v]> (custom obj))
  end.


(** The loop shared by [__getattr__] and [_chain]:
    [for attribute, value in self.__dict__.items():
       if attribute not in ('_name', '_parent', '_append_slash'):
         setattr(chain, attribute, value)] *)
Definition copy_attributes (self chain : Hammock) : Hammock :=
  foldl (λ chain a,
           if bool_decide
                (attribute_name a ∉ ["_name"; "_parent"; "_append_slash"])
           then setattr chain a else chain)
        chain (__dict__ self).

(** [Hammock.__getattr__]; Python calls it for absent attributes only. *)
Definition __getattr__ (self : Hammock) (name : string) : Hammock :=
  let chain := __init__ (Some name) (Some self) (_append_slash self) ∅ in
  copy_attributes self chain.

(** [Hammock.__iter__]: the nodes the generator yields, in order. *)
Fixpoint __iter__ (current : Hammock) : list Hammock :=
  (if truthy (_name current) then [current] else [])
  ++ match _parent current with
     | Some parent => __iter__ parent
     | None => []
     end.

(** [Hammock._chain] *)
Definition _chain (self : Hammock) (args : list segment) : Hammock :=
  let chain :=
    foldl (λ chain arg,
             __init__ (Some (str arg)) (Some chain) (_append_slash self) ∅)
          self args in
  copy_attributes self chain.

(** [Hammock.__call__] *)
Definition __call__ (self : Hammock) (args : list segment) : Hammock :=
  _chain self args.

(** ["sep".join(l)] *)
Fixpoint join (sep : string) (l : list string) : string :=
  match l with
  | [] => ""
  | [x] => x
  | x :: l' => x +:+ sep +:+ join sep l'
  end.

(** [Hammock._url] *)
Definition _url (self : Hammock) (args : list segment) : string :=
  let path_comps := omap _name (__iter__ (_chain self args)) in
  if _append_slash self then
    let url := join "/" (reverse path_comps) in
    url +:+ "/"
  else
    join "/" (reverse path_comps).

(** [Hammock.__repr__] *)
Definition __repr__ (self : Hammock) : string := _url self [].

(** [Hammock._probe_session] *)
Definition _probe_session (self : Hammock) : option Session :=
  let fix loop (l : list Hammock) : option Session :=
    match l with
    | [] => None
    | hammock :: l' =>
        if truthy (_session hammock) then _session hammock else loop l'
    end in
  loop (__iter__ self).


(** ** Effects: the transport and the exceptions *)

(** What [session.request] and [session.close] are invoked on: a session
    object, or the [requests] module itself (which offers [request] too). *)
Inductive transport : Type :=
  | RequestsModule
  | SessionObject (s : Session).

(** [self._probe_session() or requests] *)
Definition or_requests (probed : option Session) : transport :=
  match probed with
  | Some s => if truthy probed then SessionObject s else RequestsModule
  | None => RequestsModule
  end.

Inductive exn : Type :=
  | Exception (msg : string)
  (** a call that cannot bind its keyword arguments: [callee] got multiple
      values for one of its parameters *)
  | TypeError (callee : string)
  (** whatever the transport raises; passed through untouched *)
  | TransportError (detail : string).

(** The operations performed on the transport, in program order. *)
Inductive event : Type :=
  | Request (target : transport) (method url : string)
      (kwargs : gmap string pyval)
  | Close (s : Session).

(** The outside world: how the transport answers a request (a response
    value or an error, be it a failure of the network or the refusal of
    an option that its own signature cannot bind), and the operations
    performed on it so far. *)
Record world : Type := mkWorld {
  respond : transport → string → string → gmap string pyval → exn + pyval;
  log : list event
}.

Definition record (e : event) (w : world) : world :=
  mkWorld (respond w) (log w ++ [e]).

(** Computations that may raise and that act on the world. *)
Definition M (A : Type) : Type := world → (exn + A) * world.

#[global] Instance M_ret : MRet M := λ A a w, (inr a, w).
#[global] Instance M_bind : MBind M := λ A B k m w,
  match m w with
  | (inr a, w') => k a w'
  | (inl e, w') => (inl e, w')
  end.

Definition raise {A} (e : exn) : M A := λ w, (inl e, w).

(** [target.request(method, url, kwargs)] *)
Definition session_request (target : transport) (method url : string)
    (kwargs : gmap string pyval) : M pyval :=
  λ w, (respond w target method url kwargs,
        record (Request target method url kwargs) w).

(** [session.close()] *)
Definition session_close (s : Session) : M () :=
  λ w, (inr (), record (Close s) w).

(** [Hammock._close_session] *)
Definition _close_session (self : Hammock) (probe : bool) : M () :=
  let session := py_and_or probe (_probe_session self) (_session self) in
  if truthy session then from_option session_close (mret ()) session
  else mret ().

(** [Hammock._request] *)
Definition _request (self : Hammock) (method : string) (args : list segment)
    (kwargs : gmap string pyval) : M pyval :=
  let session := or_requests (_probe_session self) in
  session_request session method (_url self args) kwargs.

(** ** Verb methods *)

Definition HTTP_METHODS : list string :=
  ["get"; "options"; "head"; "post"; "put"; "patch"; "delete"].

Definition REQUESTS_SPECIAL_KEYS : gset string :=
  list_to_set
    ["params"; "headers"; "cookies"; "auth"; "timeout";
     "allow_redirects"; "proxies"; "return_response"; "session";
     "config"; "verify"; "prefetch"; "cert"].

(** The exception raised for a mix of special and unknown keyword
    arguments; the source continues the literal on the next line, so the
    indentation is part of the message. *)
Definition AmbiguousArguments : exn :=
  Exception
    "You cannot pass a requests kwarg and an                     unknown kwarg together".

(** The local variables of the coercion loop. *)
Record coercion : Type := mkCoercion {
  special_key_found : bool;
  non_special_key_found : bool;
  params_to_send : gmap string pyval
}.

(** [d.setdefault('params', {}).update({key: value})] *)
Definition setdefault_params_update (d : gmap string pyval) (key : string)
    (value : pyval) : gmap string pyval :=
  let params := match d !! "params" with
                | Some (VDict params) => params
                | _ => ∅
                end in
  <["params" := VDict (<[key:=value]> params)]> d.

(** One iteration of [for key in kwargs]. *)
Definition coercion_step (kwargs : gmap string pyval) (st : coercion)
    (key : string) : coercion :=
  if bool_decide (key ∉ REQUESTS_SPECIAL_KEYS) then
    mkCoercion (special_key_found st) true
      (setdefault_params_update (params_to_send st) key (kwargs !!! key))
  else
    mkCoercion true (non_special_key_found st) (params_to_send st).

(** The keys [for key in kwargs] runs over. *)
Definition keys (kwargs : gmap string pyval) : list string :=
  (map_to_list kwargs).*1.

(** Binding keyword arguments.  A call [f(a, ..., **kwargs)] whose
    positional arguments fill the parameters [parameters] of [f] is refused
    when a keyword names one of them ("got multiple values for argument"),
    before the body of [f] runs.  Which keyword the message names depends
    on the order of the dict, so the exception carries the callee only. *)
Definition keyword_clash (parameters : list string)
    (kwargs : gmap string pyval) : bool :=
  existsb (λ parameter, bool_decide (parameter ∈ dom kwargs)) parameters.

(** The call [hammock._request(method, *args, **kwargs)] that ends [aux];
    [_request] is declared with [self, method, *args, **kwargs]. *)
Definition call__request (hammock : Hammock) (method : string)
    (args : list segment) (kwargs : gmap string pyval) : M pyval :=
  if keyword_clash ["self"; "method"] kwargs then raise (TypeError "_request")
  else _request hammock method args kwargs.

(** [bind_method(method)]: the function [aux] it returns, declared with
    the parameters [hammock, *args, **kwargs] and called as a method of
    the node, which fills [hammock]. *)
Definition bind_method (method : string) (hammock : Hammock)
    (args : list segment) (kwargs : gmap string pyval) : M pyval :=
  if keyword_clash ["hammock"] kwargs then raise (TypeError "aux") else
  kwargs ← (if bool_decide (method = "get") && truthy kwargs
        && bool_decide ("params" ∉ dom kwargs)
     then
       let st := foldl (coercion_step kwargs) (mkCoercion false false ∅)
                   (keys kwargs) in
       if special_key_found st && non_special_key_found st then
         raise AmbiguousArguments
       else if non_special_key_found st then mret (params_to_send st)
       else mret kwargs
     else mret kwargs);
  call__request hammock method args kwargs.

(** [setattr(Hammock, method.upper(), bind_method(method))] for each of
    [HTTP_METHODS]. *)
Definition GET := bind_method "get".
Definition OPTIONS := bind_method "options".
Definition HEAD := bind_method "head".
Definition POST := bind_method "post".
Definition PUT := bind_method "put".
Definition PATCH := bind_method "patch".
Definition DELETE := bind_method "delete".


(** ** Building chains *)

(** The two ways a caller extends a chain. *)
Inductive step : Type :=
  | Attr (name : string)
  | Call (args : list segment).

Definition apply_step (node : Hammock) (s : step) : Hammock :=
  match s with
  | Attr name => __getattr__ node name
  | Call args => __call__ node args
  end.

(** [root.s1.s2. ... .sk] *)
Definition build (root : Hammock) (steps : list step) : Hammock :=
  foldl apply_step root steps.

(** The names a step chains on, left to right. *)
Definition step_names (s : step) : list string :=
  match s with
  | Attr name => [name]
  | Call args => str <$> args
  end.

Definition chained_names (steps : list step) : list string :=
  steps ≫= step_names.

(** The chain from a node up to its root, unnamed nodes included. *)
Fixpoint ancestors (node : Hammock) : list Hammock :=
  node :: match _parent node with
          | Some parent => ancestors parent
          | None => []
          end.

(** The names [_url] joins, leaf first. *)
Definition names (node : Hammock) : list string :=
  omap _name (__iter__ node).

(** The attribute names the copy loop leaves alone. *)
Definition identity_fields : list string :=
  ["_name"; "_parent"; "_append_slash"].

(** ** Auxiliary definitions for the proofs *)

(** One pass of the copy loop over a caller-stored entry. *)
Definition copy_entry (m : gmap string pyval) (kv : string * pyval)
    : gmap string pyval :=
  if bool_decide (kv.1 ∉ identity_fields) then <[kv.1:=kv.2]> m else m.

(** The nodes [_chain] links, before the attribute copy. *)
Definition link (append_slash : bool) (chain : Hammock) (arg : segment)
    : Hammock :=
  __init__ (Some (str arg)) (Some chain) append_slash ∅.

(** The number of ['/'] characters a string ends with. *)
Fixpoint leading_slashes (l : list ascii) : nat :=
  match l with
  | c :: l' => if bool_decide (c = "/"%char) then S (leading_slashes l') else 0
  | [] => 0
  end.

Definition trailing_slashes (s : string) : nat :=
  leading_slashes (reverse (list_ascii_of_string s)).

(** A world in which nothing was performed yet and the transport answers
    [None] to every request. *)
Definition idle : world := mkWorld (λ _ _ _ _, inr VNone) [].

(** The parameter-coercion rule in the words of the specification:
    partition the options into those under a recognised transport key and
    all the others; when at least one other key is found, fail if a
    special key was found too, and else replace the options by a single
    [params] entry bundling every non-special pair; when none is found the
    options stay as they are. *)
Definition spec_coercion_rule (options : gmap string pyval)
    : exn + gmap string pyval :=
  let special := filter (λ kv, kv.1 ∈ REQUESTS_SPECIAL_KEYS) options in
  let other := filter (λ kv, kv.1 ∉ REQUESTS_SPECIAL_KEYS) options in
  if truthy other then
    if truthy special then inl AmbiguousArguments
    else inr {["params" := VDict other]}
  else inr options.

(** The specification's condition for the rule to apply: the method is
    the GET verb, the options are non-empty, and they do not already
    contain a key named [params]. *)
Definition spec_coercion_applies (method : string)
    (options : gmap string pyval) : Prop :=
  method = "get" ∧ size options ≠ 0 ∧ "params" ∉ dom options.

#[global] Instance spec_coercion_applies_dec method options :
  Decision (spec_coercion_applies method options).
Proof. unfold spec_coercion_applies. apply _. Defined.

(** * Properties *)

(** Induction along the parent links. *)
Lemma Hammock_chain_ind (P : Hammock → Prop) :
  (∀ h, _parent h = None → P h) →
  (∀ h p, _parent h = Some p → P p → P h) →
  ∀ h, P h.
Proof.
  intros Hroot Hchild. fix IH 1. intros [n [p|] a s c].
  - apply (Hchild (mkHammock n (Some p) a s c) p eq_refl (IH p)).
  - apply Hroot. reflexivity.
Qed.


(** ** The attribute copy *)

Section copy.
Implicit Types (self chain : Hammock) (m : gmap string pyval).

Lemma foldl_copy_custom (l : list (string * pyval)) chain :
  foldl (λ chain a,
           if bool_decide (attribute_name a ∉ identity_fields)
           then setattr chain a else chain)
        chain ((λ kv, A_custom kv.1 kv.2) <$> l)
  = mkHammock (_name chain) (_parent chain) (_append_slash chain)
      (_session chain) (foldl copy_entry (custom chain) l).
Proof.
  revert chain. induction l as [|[k v] l IH]; intros chain.
  - by destruct chain.
  - cbn [fmap list_fmap foldl attribute_name fst snd]. rewrite IH.
    assert (copy_entry (custom chain) (k, v)
            = if bool_decide (k ∉ identity_fields)
              then <[k:=v]> (custom chain) else custom chain) as ->
      by done.
    by case_bool_decide.
Qed.

Lemma foldl_copy_entry_lookup (l : list (string * pyval)) m k :
  NoDup l.*1 →
  foldl copy_entry m l !! k
  = if bool_decide (k ∈ identity_fields) then m !! k
    else match (list_to_map l : gmap string pyval) !! k with
         | Some v => Some v
         | None => m !! k
         end.
Proof.
  revert m. induction l as [|[k' v'] l IH]; intros m Hnd; simpl.
  - rewrite lookup_empty. by case_bool_decide.
  - apply NoDup_cons in Hnd as [Hk' Hnd]. rewrite IH by done.
    unfold copy_entry; simpl.
    destruct (decide (k = k')) as [->|Hne].
    + rewrite lookup_insert_eq.
      rewrite (not_elem_of_list_to_map_1 _ k') by done.
      repeat case_bool_decide; try done.
      by rewrite lookup_insert_eq.
    + rewrite (lookup_insert_ne (list_to_map l)) by done.
      repeat case_bool_decide; try done;
        by rewrite lookup_insert_ne.
Qed.

(** What the copy loop does, field by field. *)
Lemma copy_attributes_fields self chain :
  _name (copy_attributes self chain) = _name chain
  ∧ _parent (copy_attributes self chain) = _parent chain
  ∧ _append_slash (copy_attributes self chain) = _append_slash chain
  ∧ _session (copy_attributes self chain) = _session self
  ∧ ∀ k, custom (copy_attributes self chain) !! k
         = if bool_decide (k ∈ identity_fields) then custom chain !! k
           else match custom self !! k with
                | Some v => Some v
                | None => custom chain !! k
                end.
Proof.
  unfold copy_attributes, __dict__. rewrite foldl_app. simpl.
  fold identity_fields. rewrite foldl_copy_custom. simpl.
  repeat split; try done.
  intros k. rewrite foldl_copy_entry_lookup by apply NoDup_fst_map_to_list.
  by rewrite list_to_map_to_list.
Qed.

Lemma copy_attributes_name self chain :
  _name (copy_attributes self chain) = _name chain.
Proof. apply copy_attributes_fields. Qed.

Lemma copy_attributes_parent self chain :
  _parent (copy_attributes self chain) = _parent chain.
Proof. apply copy_attributes_fields. Qed.

Lemma copy_attributes_append_slash self chain :
  _append_slash (copy_attributes self chain) = _append_slash chain.
Proof. apply copy_attributes_fields. Qed.

Lemma copy_attributes_session self chain :
  _session (copy_attributes self chain) = _session self.
Proof. apply copy_attributes_fields. Qed.


(** Copying a node's attributes onto itself changes nothing. *)
Lemma copy_attributes_self self : copy_attributes self self = self.
Proof.
  pose proof (copy_attributes_fields self self) as (Hn & Hp & Ha & Hs & Hc).
  destruct (copy_attributes self self) as [n p a s c] eqn:E.
  destruct self as [n' p' a' s' c']. simpl in *. subst.
  f_equal. apply map_eq. intros k. rewrite Hc.
  case_bool_decide; [done|]. by destruct (c' !! k).
Qed.
End copy.

(** ** Walking the chain *)

Lemma __iter___unfold (current : Hammock) :
  __iter__ current
  = (if truthy (_name current) then [current] else [])
    ++ match _parent current with
       | Some parent => __iter__ parent
       | None => []
       end.
Proof. by destruct current. Qed.

Lemma names_unfold (node : Hammock) :
  names node
  = match _name node with
    | Some n => if truthy n then [n] else []
    | None => []
    end
    ++ match _parent node with
       | Some parent => names parent
       | None => []
       end.
Proof.
  unfold names. rewrite __iter___unfold, omap_app. f_equal.
  - destruct (_name node) as [n|] eqn:E; [|done].
    cbn. destruct (truthy n); [|done]. cbn. by rewrite E.
  - by destruct (_parent node).
Qed.

(** The walk only looks at names and parents, which the copy keeps. *)
Lemma names_copy_attributes (self chain : Hammock) :
  names (copy_attributes self chain) = names chain.
Proof.
  rewrite (names_unfold (copy_attributes _ _)), (names_unfold chain).
  by rewrite copy_attributes_name, copy_attributes_parent.
Qed.

Lemma truthy_string_filter (n : string) :
  (if truthy n then [n] else []) = filter (λ s : string, s ≠ "") [n].
Proof.
  unfold truthy, string_truthy.
  destruct (decide (n = "")) as [->|Hn]; [done|].
  rewrite bool_decide_false by done. simpl.
  rewrite filter_cons_True by done. by rewrite filter_nil.
Qed.

Lemma names___getattr__ (self : Hammock) (name : string) :
  names (__getattr__ self name)
  = filter (λ s : string, s ≠ "") [name] ++ names self.
Proof.
  unfold __getattr__. rewrite names_copy_attributes, names_unfold. simpl.
  by rewrite truthy_string_filter.
Qed.

Lemma names_foldl_link (a : bool) (args : list segment) (node : Hammock) :
  names (foldl (link a) node args)
  = reverse (filter (λ s : string, s ≠ "") (str <$> args)) ++ names node.
Proof.
  revert node. induction args as [|arg args IH]; intros node; [done|].
  cbn [foldl fmap list_fmap]. rewrite IH.
  rewrite (names_unfold (link _ _ _)). simpl.
  rewrite truthy_string_filter, (filter_cons _ (str arg)).
  rewrite (filter_cons _ (str arg)), filter_nil.
  case_decide; [|done].
  rewrite reverse_cons. by rewrite <-(assoc_L (++)).
Qed.

Lemma names__chain (self : Hammock) (args : list segment) :
  names (_chain self args)
  = reverse (filter (λ s : string, s ≠ "") (str <$> args)) ++ names self.
Proof.
  unfold _chain. rewrite names_copy_attributes. apply names_foldl_link.
Qed.

Lemma names_apply_step (node : Hammock) (s : step) :
  names (apply_step node s)
  = reverse (filter (λ s : string, s ≠ "") (step_names s)) ++ names node.
Proof.
  destruct s as [name|args]; simpl.
  - rewrite names___getattr__.
    rewrite (filter_cons _ name), filter_nil. by case_decide.
  - apply names__chain.
Qed.

Lemma names_build (root : Hammock) (steps : list step) :
  names (build root steps)
  = reverse (filter (λ s : string, s ≠ "") (chained_names steps))
    ++ names root.
Proof.
  revert root. induction steps as [|s steps IH]; intros root; [done|].
  unfold build, chained_names in *. cbn [foldl mbind list_bind].
  rewrite IH, names_apply_step, filter_app, reverse_app.
  by rewrite <-(assoc_L (++)).
Qed.

(** Children inherit the trailing-slash flag. *)
Lemma append_slash_foldl_link (a : bool) (args : list segment)
    (node : Hammock) :
  _append_slash node = a → _append_slash (foldl (link a) node args) = a.
Proof.
  revert node. induction args as [|arg args IH]; intros node Hn; [done|].
  simpl. by apply IH.
Qed.

Lemma append_slash_apply_step (node : Hammock) (s : step) :
  _append_slash (apply_step node s) = _append_slash node.
Proof.
  destruct s as [name|args]; simpl.
  - unfold __getattr__. by rewrite copy_attributes_append_slash.
  - unfold __call__, _chain. rewrite copy_attributes_append_slash.
    by apply append_slash_foldl_link.
Qed.

Lemma append_slash_build (root : Hammock) (steps : list step) :
  _append_slash (build root steps) = _append_slash root.
Proof.
  revert root. induction steps as [|s steps IH]; intros root; [done|].
  unfold build in *. simpl. by rewrite IH, append_slash_apply_step.
Qed.

(** A call without arguments hands back the node it was made on. *)
Lemma _chain_nil (self : Hammock) : _chain self [] = self.
Proof. unfold _chain. simpl. apply copy_attributes_self. Qed.

(** [_url] without extra segments, in terms of the names walked. *)
Lemma _url_names (self : Hammock) :
  _url self []
  = if _append_slash self then join "/" (reverse (names self)) +:+ "/"
    else join "/" (reverse (names self)).
Proof. unfold _url. by rewrite _chain_nil. Qed.

(** ** Strings *)

Lemma append_assoc (a b c : string) : (a +:+ b) +:+ c = a +:+ (b +:+ c).
Proof.
  induction a as [|x a IH]; [done|].
  change (String x ((a +:+ b) +:+ c) = String x (a +:+ b +:+ c)).
  by rewrite IH.
Qed.

Lemma list_ascii_of_string_app (a b : string) :
  list_ascii_of_string (a +:+ b)
  = list_ascii_of_string a ++ list_ascii_of_string b.
Proof.
  induction a as [|x a IH]; [done|].
  change (x :: list_ascii_of_string (a +:+ b)
          = x :: list_ascii_of_string a ++ list_ascii_of_string b).
  by rewrite IH.
Qed.

Lemma trailing_slashes_app_slash (s : string) :
  trailing_slashes (s +:+ "/") = S (trailing_slashes s).
Proof.
  unfold trailing_slashes. rewrite list_ascii_of_string_app. simpl.
  by rewrite reverse_app.
Qed.

(** A suffix that is not empty and does not end in ['/'] decides. *)
Lemma trailing_slashes_app_0 (a x : string) :
  x ≠ "" → trailing_slashes x = 0 → trailing_slashes (a +:+ x) = 0.
Proof.
  unfold trailing_slashes. rewrite list_ascii_of_string_app, reverse_app.
  intros Hx H0.
  destruct (reverse (list_ascii_of_string x)) as [|c r] eqn:E.
  - apply (f_equal reverse) in E. rewrite reverse_involutive in E.
    destruct x; [done|discriminate].
  - simpl in *. by case_bool_decide.
Qed.

Lemma join_snoc (sep : string) (l : list string) (x : string) :
  join sep (l ++ [x])
  = match l with
    | [] => x
    | _ => join sep l +:+ sep +:+ x
    end.
Proof.
  induction l as [|y l IH]; [done|].
  destruct l as [|z l]; [done|].
  change (join sep ((y :: z :: l) ++ [x]))
    with (y +:+ sep +:+ join sep ((z :: l) ++ [x])).
  rewrite IH.
  change (join sep (y :: z :: l)) with (y +:+ sep +:+ join sep (z :: l)).
  by rewrite !append_assoc.
Qed.

Lemma trailing_slashes_join_snoc (l : list string) (x : string) :
  x ≠ "" → trailing_slashes x = 0 →
  trailing_slashes (join "/" (l ++ [x])) = 0.
Proof.
  intros Hx H0. rewrite join_snoc. destruct l as [|y l]; [done|].
  apply trailing_slashes_app_0; [done|]. by apply trailing_slashes_app_0.
Qed.

(** ** Resolving URLs *)

Lemma names_unnamed_root (root : Hammock) :
  truthy (_name root) = false → _parent root = None → names root = [].
Proof.
  intros Hname Hparent. rewrite names_unfold, Hparent.
  destruct (_name root) as [n|]; [|done].
  change (truthy (Some n)) with (truthy n) in Hname. by rewrite Hname.
Qed.

(** Every name the walk collects is a non-empty string. *)
Lemma names_nonempty (node : Hammock) : Forall (λ n, n ≠ "") (names node).
Proof.
  induction node as [h Hroot|h p Hp IH] using Hammock_chain_ind;
    rewrite names_unfold; [rewrite Hroot|rewrite Hp];
    (apply Forall_app; split; [|done]);
    (destruct (_name h) as [n|]; [|done]);
    unfold truthy, string_truthy; by case_bool_decide; repeat constructor.
Qed.

(** C1: for a chain of non-empty names [n1 .. nk] built, by attribute
    access and calls, under an unnamed root with [append_slash] false,
    [_url] without extra segments returns ["n1/n2/.../nk"]: the names are
    collected leaf to root, the unnamed root is skipped, the list is
    reversed and joined with ["/"]. *)
Theorem url_of_chained_names (root : Hammock) (steps : list step) :
  truthy (_name root) = false →
  _parent root = None →
  _append_slash root = false →
  Forall (λ n, n ≠ "") (chained_names steps) →
  _url (build root steps) [] = join "/" (chained_names steps).
Proof.
  intros Hname Hparent Hslash Hnames.
  rewrite _url_names, append_slash_build, Hslash, names_build.
  rewrite (names_unnamed_root root) by done.
  rewrite (right_id_L [] (++)), reverse_involutive.
  f_equal. clear -Hnames.
  induction Hnames as [|n l Hn _ IH]; [done|].
  rewrite filter_cons_True by done. by rewrite IH.
Qed.

(** [root.api("v1").users("42")] under [Hammock()]. *)
Lemma url_of_chained_names_example :
  _url (build (__init__ None None false ∅)
          [Attr "api"; Call [SStr "v1"]; Attr "users"; Call [SStr "42"]]) []
  = "api/v1/users/42".
Proof.
  apply (url_of_chained_names (__init__ None None false ∅)
           [Attr "api"; Call [SStr "v1"]; Attr "users"; Call [SStr "42"]]).
  - reflexivity.
  - reflexivity.
  - reflexivity.
  - repeat constructor; discriminate.
Defined.

(** C8: calling a node without positional arguments returns a node that
    resolves to the same URL as the original, whatever extra segments the
    resolution is given: the call hands back the node itself and adds no
    path segment. *)
Theorem call_without_arguments (self : Hammock) (extra : list segment) :
  __call__ self [] = self
  ∧ _url (__call__ self []) extra = _url self extra
  ∧ __repr__ (__call__ self []) = __repr__ self.
Proof.
  unfold __call__. by rewrite _chain_nil.
Qed.

(** C7, as the code has it: under a root configured with [append_slash],
    the URL of every chain built from it is the joined path with one ['/']
    appended, and it ends with exactly one ['/'] provided the last path
    component does not itself end in ['/']; a chain of an unnamed root only
    resolves to the empty string, or to ["/"] when [append_slash] is set. *)
Theorem url_append_slash (root : Hammock) (steps : list step) :
  (_append_slash root = true →
   let node := build root steps in
   _url node [] = join "/" (reverse (names node)) +:+ "/"
   ∧ (trailing_slashes (default "" (head (names node))) = 0 →
      trailing_slashes (_url node []) = 1))
  ∧ (truthy (_name root) = false → _parent root = None →
     _url root [] = if _append_slash root then "/" else "").
Proof.
  split.
  - intros Hslash node.
    assert (_url node [] = join "/" (reverse (names node)) +:+ "/") as Hurl.
    { rewrite _url_names. unfold node. by rewrite append_slash_build, Hslash. }
    split; [done|]. rewrite Hurl, trailing_slashes_app_slash.
    intros Hlast. f_equal.
    pose proof (names_nonempty node) as Hne.
    destruct (names node) as [|x rest]; [done|].
    rewrite reverse_cons. apply Forall_cons in Hne as [Hx _].
    by apply trailing_slashes_join_snoc.
  - intros Hname Hparent. rewrite _url_names, names_unnamed_root by done.
    by destruct (_append_slash root).
Qed.

Lemma url_append_slash_example :
  _url (build (__init__ None None true ∅) [Attr "api"; Call [SInt 1]]) []
  = "api/1/"
  ∧ trailing_slashes
      (_url (build (__init__ None None true ∅) [Attr "api"; Call [SInt 1]]) [])
    = 1
  ∧ _url (__init__ None None true ∅) [] = "/".
Proof.
  destruct (url_append_slash (__init__ None None true ∅)
              [Attr "api"; Call [SInt 1]]) as [Hslash Hroot].
  destruct (Hslash eq_refl) as [Hurl Hone].
  split; [exact Hurl|]. split; [exact (Hone eq_refl)|].
  exact (Hroot eq_refl eq_refl).
Defined.

(** C7 as stated fails: a last component that ends in ['/'] leaves two. *)
Lemma url_append_slash_two_slashes :
  _append_slash (__init__ None None true ∅) = true
  ∧ _url (build (__init__ None None true ∅) [Call [SStr "users/"]]) []
    = "users//"
  ∧ trailing_slashes
      (_url (build (__init__ None None true ∅) [Call [SStr "users/"]]) [])
    = 2.
Proof. by vm_compute. Qed.

(** ** The nodes chaining creates *)

Lemma ancestors_unfold (node : Hammock) :
  ancestors node
  = node :: match _parent node with
            | Some parent => ancestors parent
            | None => []
            end.
Proof. by destruct node. Qed.

Lemma ancestors_copy_attributes (self chain : Hammock) :
  ancestors (copy_attributes self chain)
  = copy_attributes self chain :: tail (ancestors chain).
Proof.
  rewrite (ancestors_unfold (copy_attributes _ _)), (ancestors_unfold chain).
  by rewrite copy_attributes_parent.
Qed.

(** The nodes a call links in: one for each segment, newest first, each of
    them fresh from the constructor. *)
Lemma ancestors_foldl_link (a : bool) (args : list segment)
    (node : Hammock) :
  ∃ new,
    ancestors (foldl (link a) node args) = new ++ ancestors node
    ∧ _name <$> new = Some <$> reverse (str <$> args)
    ∧ Forall (λ p, _session p = None ∧ custom p = ∅) new.
Proof.
  revert node. induction args as [|arg args IH]; intros node.
  - by exists [].
  - destruct (IH (link a node arg)) as (new & Hanc & Hnames & Hbare).
    exists (new ++ [link a node arg]). cbn [foldl]. split; [|split].
    + by rewrite Hanc, <-(assoc_L (++)).
    + rewrite fmap_app, Hnames. cbn [fmap list_fmap].
      by rewrite reverse_cons, fmap_app.
    + apply Forall_app. split; [done|]. by repeat constructor.
Qed.

Lemma _chain_link (self : Hammock) (args : list segment) :
  _chain self args
  = copy_attributes self (foldl (link (_append_slash self)) self args).
Proof. done. Qed.

Lemma ancestors_apply_step (node : Hammock) (s : step) :
  ∃ new,
    ancestors (apply_step node s) = new ++ ancestors node
    ∧ _name <$> new = Some <$> reverse (step_names s).
Proof.
  destruct s as [name|args]; simpl.
  - exists [__getattr__ node name]. unfold __getattr__. split.
    + by rewrite ancestors_copy_attributes.
    + cbn [fmap list_fmap]. by rewrite copy_attributes_name.
  - unfold __call__.
    destruct args as [|arg args _] using rev_ind.
    { exists []. split; [|done]. by rewrite _chain_nil. }
    rewrite _chain_link, ancestors_copy_attributes, foldl_app.
    cbn [foldl]. rewrite (ancestors_unfold (link _ _ _)).
    cbn [link __init__ _parent tail].
    destruct (ancestors_foldl_link (_append_slash node) args node)
      as (new & Hanc & Hnames & _).
    rewrite Hanc.
    exists (copy_attributes node
              (__init__ (Some (str arg))
                 (Some (foldl (link (_append_slash node)) node args))
                 (_append_slash node) ∅) :: new).
    split; [done|].
    rewrite fmap_app, reverse_app. cbn [fmap list_fmap].
    by rewrite copy_attributes_name, Hnames.
Qed.

Lemma ancestors_build_new (root : Hammock) (steps : list step) :
  ∃ new,
    ancestors (build root steps) = new ++ ancestors root
    ∧ _name <$> new = Some <$> reverse (chained_names steps).
Proof.
  revert root. induction steps as [|s steps IH]; intros root.
  - by exists [].
  - destruct (IH (apply_step root s)) as (new2 & Hanc2 & Hnames2).
    destruct (ancestors_apply_step root s) as (new1 & Hanc1 & Hnames1).
    exists (new2 ++ new1). split.
    + change (build root (s :: steps)) with (build (apply_step root s) steps).
      by rewrite Hanc2, Hanc1, (assoc_L (++)).
    + change (chained_names (s :: steps))
        with (step_names s ++ chained_names steps).
      by rewrite reverse_app, !fmap_app, Hnames2, Hnames1.
Qed.

(** ** Sessions and inherited attributes *)


Lemma session_apply_step (node : Hammock) (s : step) :
  _session (apply_step node s) = _session node.
Proof.
  destruct s; simpl; unfold __getattr__, __call__, _chain;
    apply copy_attributes_session.
Qed.


(** The nodes a call links in between carry no session. *)
Lemma session_foldl_link (a : bool) (args : list segment) (node : Hammock) :
  args ≠ [] → _session (foldl (link a) node args) = None.
Proof.
  intros Hargs. destruct args as [|arg args _] using rev_ind; [done|].
  by rewrite foldl_app.
Qed.










(** What the walk yields: the ancestors that have a non-empty name. *)
Lemma __iter___ancestors (node : Hammock) :
  __iter__ node = filter (λ h, truthy (_name h) = true) (ancestors node).
Proof.
  induction node as [h Hroot|h p Hp IH] using Hammock_chain_ind;
    rewrite __iter___unfold, ancestors_unfold, filter_cons;
    [rewrite Hroot|rewrite Hp, <-IH];
    by destruct (truthy (_name h)); case_decide.
Qed.

(** The search returns the first session among the nodes the walk yields. *)
Lemma _probe_session_head (self : Hammock) :
  _probe_session self = head (omap _session (__iter__ self)).
Proof.
  unfold _probe_session. induction (__iter__ self) as [|h l IH]; [done|].
  simpl. by destruct (_session h).
Qed.

(** On a chain whose nodes all have non-empty names the search is the
    nearest-first search over all ancestors, the node included. *)
Lemma _probe_session_all_named (self : Hammock) :
  Forall (λ h, truthy (_name h) = true) (ancestors self) →
  _probe_session self = head (omap _session (ancestors self)).
Proof.
  intros Hnamed. rewrite _probe_session_head, __iter___ancestors.
  f_equal. f_equal. clear -Hnamed.
  induction Hnamed as [|h l Hh _ IH]; [done|].
  rewrite filter_cons_True by done. by rewrite IH.
Qed.

(** C5, at the input where the code departs from it: a root without a name
    owns a session, yet the search started at the root, or at a child
    constructed under it, yields nothing, because the walk passes over
    nodes without a name. *)
Theorem probe_session_unnamed_root :
  _session (__init__ None None false {["auth" := VStr "token"]})
  = Some (requests_session {["auth" := VStr "token"]})
  ∧ _probe_session (__init__ None None false {["auth" := VStr "token"]})
    = None
  ∧ _probe_session
      (__init__ (Some "users")
         (Some (__init__ None None false {["auth" := VStr "token"]}))
         false ∅)
    = None.
Proof. by vm_compute. Qed.

(** What closing amounts to: without [probe] the node's own session; with
    [probe] the session the search finds or, when it finds none, the
    node's own. *)
Lemma _close_session_cases (self : Hammock) (probe : bool) (w : world) :
  _close_session self probe w
  = (inr (),
     match (if probe then
              match _probe_session self with
              | Some s => Some s
              | None => _session self
              end
            else _session self) with
     | Some s => record (Close s) w
     | None => w
     end).
Proof.
  unfold _close_session, py_and_or, py_or.
  destruct probe; simpl.
  - destruct (_probe_session self) as [s|]; simpl; [done|].
    by destruct (_session self).
  - by destruct (_session self).
Qed.

(** C9, at the inputs where the code departs from it.  A named node
    constructed under a root without a name that holds a session: with
    [probe] set nothing is closed, although the root's session is on the
    chain.  A node without a name that holds a session, under a named
    parent holding another: with [probe] set the parent's session is
    closed, not the node's own, which is the nearest. *)
Theorem close_session_skips_unnamed :
  _session (__init__ None None false {["auth" := VStr "token"]})
  = Some (requests_session {["auth" := VStr "token"]})
  ∧ _close_session
      (__init__ (Some "users")
         (Some (__init__ None None false {["auth" := VStr "token"]}))
         false ∅)
      true idle
    = (inr (), idle)
  ∧ _close_session
      (__init__ None
         (Some (__init__ (Some "http://host") None false
                  {["auth" := VStr "outer"]}))
         false {["auth" := VStr "inner"]})
      true idle
    = (inr (),
       mkWorld (respond idle)
         [Close (requests_session {["auth" := VStr "outer"]})]).
Proof. by vm_compute. Qed.

(** ** Dispatch *)

Lemma truthy_dict_true (d : gmap string pyval) : truthy d = true ↔ d ≠ ∅.
Proof.
  unfold truthy, dict_truthy. rewrite negb_true_iff, bool_decide_eq_false.
  apply map_size_non_empty_iff.
Qed.

(** Whether a filtered dict is non-empty, read off the keys. *)
Lemma truthy_filter (Q : string → Prop) (P : string * pyval → Prop)
    `{∀ kv, Decision (P kv)} (d : gmap string pyval) :
  (∀ k v, P (k, v) ↔ Q k) →
  truthy (filter P d) = true ↔ ∃ k, k ∈ keys d ∧ Q k.
Proof.
  intros HPQ. rewrite truthy_dict_true. unfold keys. split.
  - intros [k [v [Hkv HP]%map_lookup_filter_Some]]%map_choose.
    exists k. split; [|by apply (HPQ k v)].
    apply list_elem_of_fmap. exists (k, v). split; [done|].
    by apply elem_of_map_to_list.
  - intros (k & ([k' v] & -> & Hkv%elem_of_map_to_list)%list_elem_of_fmap & HP).
    intros Hempty.
    assert (filter P d !! k' = Some v) as Hin.
    { apply map_lookup_filter_Some. split; [done|]. by apply HPQ. }
    by rewrite Hempty, lookup_empty in Hin.
Qed.

Lemma elem_of_keys (d : gmap string pyval) (k : string) :
  k ∈ keys d ↔ is_Some (d !! k).
Proof.
  unfold keys. rewrite list_elem_of_fmap. split.
  - intros ([k' v] & -> & Hkv%elem_of_map_to_list). by exists v.
  - intros [v Hv]. exists (k, v). split; [done|].
    by apply elem_of_map_to_list.
Qed.

(** The flags and the bundle after the loop ran over the keys [l]. *)
Lemma coercion_loop (kwargs : gmap string pyval) (l : list string)
    (st : coercion) :
  let st' := foldl (coercion_step kwargs) st l in
  (special_key_found st' = true ↔
     special_key_found st = true ∨ ∃ k, k ∈ l ∧ k ∈ REQUESTS_SPECIAL_KEYS)
  ∧ (non_special_key_found st' = true ↔
       non_special_key_found st = true
       ∨ ∃ k, k ∈ l ∧ k ∉ REQUESTS_SPECIAL_KEYS)
  ∧ params_to_send st'
    = foldl (λ d key, setdefault_params_update d key (kwargs !!! key))
        (params_to_send st) (filter (λ k, k ∉ REQUESTS_SPECIAL_KEYS) l).
Proof.
  revert st. induction l as [|key l IH]; intros st; cbn zeta.
  - simpl. set_solver.
  - cbn [foldl]. destruct (IH (coercion_step kwargs st key)) as (Hs & Hn & Hp).
    rewrite Hs, Hn, Hp. clear IH Hs Hn Hp.
    unfold coercion_step. rewrite filter_cons.
    destruct (decide (key ∉ REQUESTS_SPECIAL_KEYS)) as [Hkey|Hkey].
    + rewrite bool_decide_true by done. simpl.
      set (S := REQUESTS_SPECIAL_KEYS) in *. clearbody S.
      split; [|split; [|done]]; set_solver.
    + rewrite bool_decide_false by done. simpl.
      apply dec_stable in Hkey.
      set (S := REQUESTS_SPECIAL_KEYS) in *. clearbody S.
      split; [|split; [|done]]; set_solver.
Qed.

Lemma foldl_setdefault_params (f : string → pyval) (l : list string)
    (d : gmap string pyval) :
  foldl (λ d key, setdefault_params_update d key (f key))
    {["params" := VDict d]} l
  = {["params" := VDict (foldl (λ d key, <[key:=f key]> d) d l)]}.
Proof.
  revert d. induction l as [|key l IH]; intros d; [done|].
  cbn [foldl]. rewrite <-IH. f_equal.
Qed.

Lemma foldl_insert_lookup (f : string → pyval) (l : list string)
    (d : gmap string pyval) (k : string) :
  foldl (λ d key, <[key:=f key]> d) d l !! k
  = if bool_decide (k ∈ l) then Some (f k) else d !! k.
Proof.
  revert d. induction l as [|key l IH]; intros d; [done|].
  cbn [foldl]. rewrite IH.
  destruct (decide (k = key)) as [->|Hne].
  - rewrite lookup_insert_eq, (bool_decide_true (key ∈ key :: l));
      [by case_bool_decide|set_solver].
  - rewrite lookup_insert_ne by done.
    repeat case_bool_decide; set_solver.
Qed.

Lemma foldl_insert_filter (kwargs : gmap string pyval) (l : list string) :
  (∀ k, k ∈ l ↔ k ∈ keys kwargs) →
  foldl (λ d key, <[key:=kwargs !!! key]> d) ∅
    (filter (λ k, k ∉ REQUESTS_SPECIAL_KEYS) l)
  = filter (λ kv, kv.1 ∉ REQUESTS_SPECIAL_KEYS) kwargs.
Proof.
  intros Hl. apply map_eq. intros k.
  rewrite foldl_insert_lookup, lookup_empty.
  apply option_eq. intros v. rewrite map_lookup_filter_Some. simpl.
  case_bool_decide as Hk.
  - apply list_elem_of_filter in Hk as [Hns [v' Hv']%Hl%elem_of_keys].
    rewrite (lookup_total_correct _ _ _ Hv'), Hv'.
    split; [by intros [= ->]|by intros [[= ->] _]].
  - split; [done|]. intros [Hv Hns]. destruct Hk.
    apply list_elem_of_filter. split; [done|].
    apply Hl, elem_of_keys. by exists v.
Qed.

(** Run from an empty bundle over the keys of [kwargs], in whichever order,
    the loop gathers exactly the non-special entries under [params]. *)
Lemma params_to_send_bundle (kwargs : gmap string pyval) (l : list string) :
  (∀ k, k ∈ l ↔ k ∈ keys kwargs) →
  let other := filter (λ kv, kv.1 ∉ REQUESTS_SPECIAL_KEYS) kwargs in
  foldl (λ d key, setdefault_params_update d key (kwargs !!! key)) ∅
    (filter (λ k, k ∉ REQUESTS_SPECIAL_KEYS) l)
  = if truthy other then {["params" := VDict other]} else ∅.
Proof.
  intros Hl other. unfold other. rewrite <-(foldl_insert_filter kwargs l Hl).
  destruct (filter _ l) as [|key l'] eqn:E; [done|].
  assert (truthy (foldl (λ d key, <[key:=kwargs !!! key]> d) ∅ (key :: l'))
          = true) as ->.
  { apply truthy_dict_true. intros Hempty.
    apply (f_equal (.!! key)) in Hempty.
    rewrite foldl_insert_lookup, lookup_empty in Hempty.
    rewrite bool_decide_true in Hempty; [done|by left]. }
  cbn [foldl]. rewrite <-foldl_setdefault_params. f_equal.
Qed.

(** Python walks a dict in insertion order, which a [gmap] does not keep:
    the loop ends in the same state in whichever order it meets the keys. *)
Lemma coercion_loop_any_order (kwargs : gmap string pyval)
    (l : list string) :
  l ≡ₚ keys kwargs →
  foldl (coercion_step kwargs) (mkCoercion false false ∅) l
  = foldl (coercion_step kwargs) (mkCoercion false false ∅) (keys kwargs).
Proof.
  intros Hperm.
  assert (∀ k, k ∈ l ↔ k ∈ keys kwargs) as Hl
    by (intros k; by rewrite Hperm).
  destruct (coercion_loop kwargs l (mkCoercion false false ∅))
    as (Hs1 & Hn1 & Hp1).
  destruct (coercion_loop kwargs (keys kwargs) (mkCoercion false false ∅))
    as (Hs2 & Hn2 & Hp2).
  cbn [special_key_found non_special_key_found params_to_send] in *.
  rewrite params_to_send_bundle in Hp1 by done.
  rewrite params_to_send_bundle in Hp2 by done.
  destruct (foldl _ _ l) as [s1 n1 p1].
  destruct (foldl _ _ (keys kwargs)) as [s2 n2 p2].
  simpl in *. subst. f_equal; apply eq_true_iff_eq.
  - rewrite Hs1, Hs2. split; (intros [?|(k & Hk & ?)]; [by left|right]);
      exists k; (split; [by apply Hl|done]).
  - rewrite Hn1, Hn2. split; (intros [?|(k & Hk & ?)]; [by left|right]);
      exists k; (split; [by apply Hl|done]).
Qed.

(** The specification's rule, decided on the keys. *)
Lemma spec_coercion_rule_cases (kwargs : gmap string pyval) :
  spec_coercion_rule kwargs
  = if bool_decide (Exists (λ k, k ∉ REQUESTS_SPECIAL_KEYS) (keys kwargs))
    then
      if bool_decide (Exists (λ k, k ∈ REQUESTS_SPECIAL_KEYS) (keys kwargs))
      then inl AmbiguousArguments
      else inr {["params" :=
                   VDict (filter (λ kv, kv.1 ∉ REQUESTS_SPECIAL_KEYS) kwargs)]}
    else inr kwargs.
Proof.
  unfold spec_coercion_rule.
  assert (truthy (filter (λ kv, kv.1 ∉ REQUESTS_SPECIAL_KEYS) kwargs)
          = bool_decide
              (Exists (λ k, k ∉ REQUESTS_SPECIAL_KEYS) (keys kwargs))) as ->.
  { apply eq_true_iff_eq. rewrite bool_decide_eq_true, Exists_exists.
    by apply (truthy_filter (λ k, k ∉ REQUESTS_SPECIAL_KEYS)). }
  assert (truthy (filter (λ kv, kv.1 ∈ REQUESTS_SPECIAL_KEYS) kwargs)
          = bool_decide
              (Exists (λ k, k ∈ REQUESTS_SPECIAL_KEYS) (keys kwargs))) as ->.
  { apply eq_true_iff_eq. rewrite bool_decide_eq_true, Exists_exists.
    by apply (truthy_filter (λ k, k ∈ REQUESTS_SPECIAL_KEYS)). }
  done.
Qed.

(** With non-special keys only, and at least one, the rule bundles all the
    options. *)
Lemma spec_coercion_rule_bundle (kwargs : gmap string pyval) :
  kwargs ≠ ∅ →
  Forall (λ k, k ∉ REQUESTS_SPECIAL_KEYS) (keys kwargs) →
  spec_coercion_rule kwargs = inr {["params" := VDict kwargs]}.
Proof.
  intros Hne Hkeys. rewrite spec_coercion_rule_cases.
  rewrite bool_decide_true.
  2:{ apply map_choose in Hne as (k & v & Hkv).
      assert (k ∈ keys kwargs) as Hin by (apply elem_of_keys; eauto).
      apply Exists_exists. exists k. split; [done|].
      by eapply Forall_forall in Hkeys. }
  rewrite bool_decide_false.
  2:{ intros (k & Hk & Hs)%Exists_exists.
      by eapply Forall_forall in Hkeys. }
  rewrite map_filter_id; [done|].
  intros k v Hkv. eapply Forall_forall in Hkeys; [done|].
  apply elem_of_keys. by exists v.
Qed.

(** A key outside the special set is no key of options made of special
    keys only. *)
Lemma special_keys_only_not_elem (kwargs : gmap string pyval) (k : string) :
  Forall (λ k, k ∈ REQUESTS_SPECIAL_KEYS) (keys kwargs) →
  k ∉ REQUESTS_SPECIAL_KEYS →
  k ∉ dom kwargs.
Proof.
  intros Hkeys Hk [v Hv]%elem_of_dom.
  assert (k ∈ keys kwargs) as Hin by (apply elem_of_keys; eauto).
  by eapply Forall_forall in Hkeys.
Qed.

Lemma parameters_not_special :
  ("hammock" ∉ REQUESTS_SPECIAL_KEYS)
  ∧ ("self" ∉ REQUESTS_SPECIAL_KEYS)
  ∧ ("method" ∉ REQUESTS_SPECIAL_KEYS)
  ∧ "params" ∈ REQUESTS_SPECIAL_KEYS.
Proof.
  repeat split; refine (bool_decide_unpack _ _); vm_compute; exact I.
Qed.

(** *** Keyword binding *)

Lemma log_record_neq (e : event) (w : world) : log (record e w) ≠ log w.
Proof.
  simpl. intros H. apply (f_equal length) in H.
  rewrite length_app in H. simpl in H. lia.
Qed.

Lemma record_neq (e : event) (w : world) : record e w ≠ w.
Proof. intros H. apply (log_record_neq e w). by rewrite H. Qed.

Lemma bind_method_clash (method : string) (hammock : Hammock)
    (args : list segment) (kwargs : gmap string pyval) (w : world) :
  "hammock" ∈ dom kwargs →
  bind_method method hammock args kwargs w = (inl (TypeError "aux"), w).
Proof.
  intros Hin. unfold bind_method, keyword_clash. simpl.
  by rewrite bool_decide_true.
Qed.

Lemma call__request_clash (hammock : Hammock) (method : string)
    (args : list segment) (kwargs : gmap string pyval) (w : world) :
  "self" ∈ dom kwargs ∨ "method" ∈ dom kwargs →
  call__request hammock method args kwargs w
  = (inl (TypeError "_request"), w).
Proof.
  intros Hin. unfold call__request, keyword_clash. simpl.
  destruct Hin as [Hin|Hin].
  - by rewrite (bool_decide_true _ Hin).
  - rewrite (bool_decide_true _ Hin). by case_bool_decide.
Qed.

Lemma call__request_bound (hammock : Hammock) (method : string)
    (args : list segment) (kwargs : gmap string pyval) (w : world) :
  "self" ∉ dom kwargs → "method" ∉ dom kwargs →
  call__request hammock method args kwargs w
  = _request hammock method args kwargs w.
Proof.
  intros Hself Hmethod. unfold call__request, keyword_clash. simpl.
  by rewrite !bool_decide_false.
Qed.

Lemma call__request_params (hammock : Hammock) (method : string)
    (args : list segment) (v : pyval) (w : world) :
  call__request hammock method args {["params" := v]} w
  = _request hammock method args {["params" := v]} w.
Proof.
  apply call__request_bound; rewrite dom_singleton_L;
    by intros [=]%elem_of_singleton.
Qed.

(** A call that goes through performs its request with the options it
    was given. *)
Lemma call__request_inv (hammock : Hammock) (method : string)
    (args : list segment) (kwargs options : gmap string pyval) (w : world) :
  call__request hammock method args kwargs w
  = _request hammock method args options w →
  kwargs = options.
Proof.
  unfold call__request, _request, session_request.
  destruct (keyword_clash _ kwargs).
  - intros [= _ Hw]. by destruct (record_neq _ _ (eq_sym Hw)).
  - intros [= _ Hlog]. by apply app_inv_head in Hlog as [= ->].
Qed.

(** When the guard of [aux] holds, the loop and the two tests after it
    compute the specification's rule. *)
Lemma bind_method_get (hammock : Hammock) (args : list segment)
    (kwargs : gmap string pyval) (w : world) :
  "hammock" ∉ dom kwargs →
  kwargs ≠ ∅ → kwargs !! "params" = None →
  bind_method "get" hammock args kwargs w
  = match spec_coercion_rule kwargs with
    | inl e => (inl e, w)
    | inr options => call__request hammock "get" args options w
    end.
Proof.
  intros Hhammock Hne Hparams. unfold bind_method, spec_coercion_rule.
  unfold keyword_clash at 1. cbn [existsb].
  rewrite (bool_decide_false _ Hhammock). cbn [orb].
  rewrite (bool_decide_true ("get" = "get")) by done.
  rewrite (proj2 (truthy_dict_true kwargs)) by done.
  rewrite bool_decide_true by by apply not_elem_of_dom.
  cbn [andb].
  destruct (coercion_loop kwargs (keys kwargs) (mkCoercion false false ∅))
    as (Hs & Hn & Hp).
  cbn [special_key_found non_special_key_found params_to_send] in *.
  rewrite params_to_send_bundle in Hp by done.
  set (st := foldl (coercion_step kwargs) (mkCoercion false false ∅)
               (keys kwargs)) in *.
  assert (special_key_found st
          = truthy (filter (λ kv, kv.1 ∈ REQUESTS_SPECIAL_KEYS) kwargs))
    as ->.
  { apply eq_true_iff_eq. rewrite Hs. split.
    - intros [?|Hk]; [done|].
      by apply (truthy_filter (λ k, k ∈ REQUESTS_SPECIAL_KEYS)).
    - intros Hk. right.
      by apply (truthy_filter (λ k, k ∈ REQUESTS_SPECIAL_KEYS)) in Hk. }
  assert (non_special_key_found st
          = truthy (filter (λ kv, kv.1 ∉ REQUESTS_SPECIAL_KEYS) kwargs))
    as ->.
  { apply eq_true_iff_eq. rewrite Hn. split.
    - intros [?|Hk]; [done|].
      by apply (truthy_filter (λ k, k ∉ REQUESTS_SPECIAL_KEYS)).
    - intros Hk. right.
      by apply (truthy_filter (λ k, k ∉ REQUESTS_SPECIAL_KEYS)) in Hk. }
  rewrite Hp. clear Hs Hn Hp.
  destruct (truthy (filter (λ kv, kv.1 ∉ _) kwargs));
    destruct (truthy (filter (λ kv, kv.1 ∈ _) kwargs)); done.
Qed.

Lemma bind_method_forward (method : string) (hammock : Hammock)
    (args : list segment) (kwargs : gmap string pyval) (w : world) :
  "hammock" ∉ dom kwargs →
  ¬ spec_coercion_applies method kwargs →
  bind_method method hammock args kwargs w
  = call__request hammock method args kwargs w.
Proof.
  intros Hhammock Hnot. unfold bind_method.
  unfold keyword_clash at 1. cbn [existsb].
  rewrite (bool_decide_false _ Hhammock). cbn [orb].
  destruct (bool_decide (method = "get") && truthy kwargs
            && bool_decide ("params" ∉ dom kwargs)) eqn:E; [|done].
  destruct Hnot.
  apply andb_true_iff in E as [[Hm Hk]%andb_true_iff Hp].
  apply bool_decide_eq_true in Hm, Hp.
  repeat split; [done| |done].
  by apply map_size_non_empty_iff, truthy_dict_true.
Qed.

(** C2, as the code has it: a GET whose keyword options are non-empty,
    have no key named [params] or [hammock] and hold non-special keys only
    performs one request on the transport with the options replaced by
    the single entry [params], the dict of exactly the given pairs; what
    the transport answers is the result. *)
Theorem get_bundles_params (hammock : Hammock) (args : list segment)
    (kwargs : gmap string pyval) (w : world) :
  kwargs ≠ ∅ →
  kwargs !! "params" = None →
  kwargs !! "hammock" = None →
  Forall (λ k, k ∉ REQUESTS_SPECIAL_KEYS) (keys kwargs) →
  GET hammock args kwargs w
  = (respond w (or_requests (_probe_session hammock)) "get"
       (_url hammock args) {["params" := VDict kwargs]},
     record (Request (or_requests (_probe_session hammock)) "get"
               (_url hammock args) {["params" := VDict kwargs]}) w).
Proof.
  intros Hne Hparams Hhammock Hkeys. unfold GET.
  rewrite bind_method_get; [|by apply not_elem_of_dom|done..].
  by rewrite spec_coercion_rule_bundle, call__request_params.
Qed.

(** [execute(node, GET, [], {filter: 12})] *)
Lemma get_bundles_params_example :
  GET (__init__ None None false ∅) [] {["filter" := VInt 12]} idle
  = (inr VNone,
     mkWorld (respond idle)
       [Request RequestsModule "get" ""
          {["params" := VDict {["filter" := VInt 12]}]}]).
Proof.
  apply (get_bundles_params (__init__ None None false ∅) []
           {["filter" := VInt 12]} idle).
  - apply truthy_dict_true. reflexivity.
  - reflexivity.
  - reflexivity.
  - refine (bool_decide_unpack _ _). vm_compute. exact I.
Defined.

(** C2 as stated fails: [hammock] is a non-special key, but it names the
    first parameter of [aux]; [node.GET(hammock=1)] is refused before
    anything is sent. *)
Lemma get_hammock_option_refused :
  ({["hammock" := VInt 1]} : gmap string pyval) !! "params" = None
  ∧ Forall (λ k, k ∉ REQUESTS_SPECIAL_KEYS)
      (keys {["hammock" := VInt 1]})
  ∧ GET (__init__ None None false ∅) [] {["hammock" := VInt 1]} idle
    = (inl (TypeError "aux"), idle).
Proof.
  split; [done|]. split; [|by vm_compute].
  refine (bool_decide_unpack _ _). vm_compute. exact I.
Qed.

(** C3, as the code has it: a GET whose options have no key named
    [params] or [hammock] and hold a special key together with a
    non-special one raises the ambiguity exception to the caller and
    leaves the world as it was: no request reaches the transport. *)
Theorem get_mixed_keys_raises (hammock : Hammock) (args : list segment)
    (kwargs : gmap string pyval) (w : world) :
  kwargs !! "params" = None →
  kwargs !! "hammock" = None →
  Exists (λ k, k ∈ REQUESTS_SPECIAL_KEYS) (keys kwargs) →
  Exists (λ k, k ∉ REQUESTS_SPECIAL_KEYS) (keys kwargs) →
  GET hammock args kwargs w = (inl AmbiguousArguments, w).
Proof.
  intros Hparams Hhammock Hs Hn. unfold GET.
  rewrite bind_method_get; [|by apply not_elem_of_dom| |done].
  - rewrite spec_coercion_rule_cases. by rewrite !bool_decide_true.
  - apply Exists_exists in Hs as (k & [v Hv]%elem_of_keys & _).
    intros ->. by rewrite lookup_empty in Hv.
Qed.

(** [execute(node, GET, [], {headers: {...}, filter: 12})] *)
Lemma get_mixed_keys_raises_example :
  GET (__init__ None None false ∅) []
    {["headers" := VDict {["Accept" := VStr "json"]}; "filter" := VInt 12]}
    idle
  = (inl AmbiguousArguments, idle).
Proof.
  apply (get_mixed_keys_raises (__init__ None None false ∅) []
           {["headers" := VDict {["Accept" := VStr "json"]};
             "filter" := VInt 12]} idle).
  - reflexivity.
  - reflexivity.
  - refine (bool_decide_unpack _ _). vm_compute. exact I.
  - refine (bool_decide_unpack _ _). vm_compute. exact I.
Defined.

(** C3 as stated fails: when the non-special key is [hammock] the call is
    refused with a [TypeError], not with the ambiguity exception. *)
Lemma get_mixed_hammock_refused :
  ({["headers" := VStr "h"; "hammock" := VInt 1]} : gmap string pyval)
    !! "params" = None
  ∧ Exists (λ k, k ∈ REQUESTS_SPECIAL_KEYS)
      (keys {["headers" := VStr "h"; "hammock" := VInt 1]})
  ∧ Exists (λ k, k ∉ REQUESTS_SPECIAL_KEYS)
      (keys {["headers" := VStr "h"; "hammock" := VInt 1]})
  ∧ GET (__init__ None None false ∅) []
      {["headers" := VStr "h"; "hammock" := VInt 1]} idle
    = (inl (TypeError "aux"), idle)
  ∧ TypeError "aux" ≠ AmbiguousArguments.
Proof.
  split; [done|]. split; [|split; [|split; [by vm_compute|done]]];
    refine (bool_decide_unpack _ _); vm_compute; exact I.
Qed.

(** C4, as the code has it.  The options are coerced, that is replaced by
    the single entry [params] holding them, exactly when the method is
    GET and the options are non-empty, have no key named [params] or
    [hammock] and hold non-special keys only.  When the method is another
    verb, or the options are empty or already hold [params], and no
    option is named [hammock], [self] or [method], one request is
    performed with the very options given and the dispatcher raises
    nothing of its own. *)
Theorem coercion_only_for_get (method : string) (hammock : Hammock)
    (args : list segment) (kwargs : gmap string pyval) (w : world) :
  (("params" ∉ dom kwargs)
   ∧ bind_method method hammock args kwargs w
     = (respond w (or_requests (_probe_session hammock)) method
          (_url hammock args) {["params" := VDict kwargs]},
        record (Request (or_requests (_probe_session hammock)) method
                  (_url hammock args) {["params" := VDict kwargs]}) w)
   ↔ method = "get"
     ∧ size kwargs ≠ 0
     ∧ ("params" ∉ dom kwargs)
     ∧ ("hammock" ∉ dom kwargs)
     ∧ Forall (λ k, k ∉ REQUESTS_SPECIAL_KEYS) (keys kwargs))
  ∧ (¬ (method = "get" ∧ size kwargs ≠ 0 ∧ "params" ∉ dom kwargs) →
     "hammock" ∉ dom kwargs →
     "self" ∉ dom kwargs →
     "method" ∉ dom kwargs →
     bind_method method hammock args kwargs w
     = (respond w (or_requests (_probe_session hammock)) method
          (_url hammock args) kwargs,
        record (Request (or_requests (_probe_session hammock)) method
                  (_url hammock args) kwargs) w)).
Proof.
  change (respond w (or_requests (_probe_session hammock)) method
            (_url hammock args) {["params" := VDict kwargs]},
          record (Request (or_requests (_probe_session hammock)) method
                    (_url hammock args) {["params" := VDict kwargs]}) w)
    with (_request hammock method args {["params" := VDict kwargs]} w).
  split; [split|].
  - intros [Hparams Heq].
    assert (∀ o, call__request hammock method args kwargs w
                 ≠ _request hammock method args {["params" := o]} w)
      as Hforward.
    { intros o ->%call__request_inv. apply Hparams.
      rewrite dom_singleton_L. by apply elem_of_singleton. }
    destruct (decide ("hammock" ∈ dom kwargs)) as [Hin|Hhammock].
    { rewrite bind_method_clash in Heq by done.
      injection Heq as _ Hw. by destruct (record_neq _ _ (eq_sym Hw)). }
    destruct (decide (spec_coercion_applies method kwargs))
      as [Happlies|Hnot].
    2:{ rewrite bind_method_forward in Heq by done.
        by destruct (Hforward _ Heq). }
    destruct Happlies as (-> & Hsize & _).
    rewrite bind_method_get in Heq;
      [|done|by apply map_size_non_empty_iff|by apply not_elem_of_dom].
    rewrite spec_coercion_rule_cases in Heq.
    case_bool_decide as Hother; [case_bool_decide as Hspecial|].
    + injection Heq as _ Hw. by destruct (record_neq _ _ (eq_sym Hw)).
    + repeat split; [done..|].
      apply Forall_forall. intros k Hk.
      destruct (decide (k ∈ REQUESTS_SPECIAL_KEYS)) as [Hks|]; [|done].
      destruct Hspecial. apply Exists_exists. eauto.
    + by destruct (Hforward _ Heq).
  - intros (-> & Hsize & Hparams & Hhammock & Hkeys). split; [done|].
    apply map_size_non_empty_iff in Hsize.
    rewrite bind_method_get; [|done|done|by apply not_elem_of_dom].
    by rewrite spec_coercion_rule_bundle, call__request_params.
  - intros Hnot Hhammock Hself Hmethod.
    by rewrite bind_method_forward, call__request_bound.
Qed.

(** [execute(node, GET, [], {params: {a: 1}, filter: 12})] is forwarded as
    given, and [GET(filter=12)] is coerced. *)
Lemma coercion_only_for_get_examples :
  GET (__init__ None None false ∅) []
    {["params" := VDict {["a" := VInt 1]}; "filter" := VInt 12]} idle
  = (inr VNone,
     mkWorld (respond idle)
       [Request RequestsModule "get" ""
          {["params" := VDict {["a" := VInt 1]}; "filter" := VInt 12]}])
  ∧ GET (__init__ None None false ∅) [] {["filter" := VInt 12]} idle
    = (inr VNone,
       mkWorld (respond idle)
         [Request RequestsModule "get" ""
            {["params" := VDict {["filter" := VInt 12]}]}]).
Proof.
  split.
  - refine (proj2 (coercion_only_for_get "get" (__init__ None None false ∅)
                     [] {["params" := VDict {["a" := VInt 1]};
                          "filter" := VInt 12]} idle) _ _ _ _).
    + intros (_ & _ & Hparams). apply Hparams.
      refine (bool_decide_unpack _ _). vm_compute. exact I.
    + refine (bool_decide_unpack _ _). vm_compute. exact I.
    + refine (bool_decide_unpack _ _). vm_compute. exact I.
    + refine (bool_decide_unpack _ _). vm_compute. exact I.
  - refine (proj2 (proj2 (proj1 (coercion_only_for_get "get"
                                   (__init__ None None false ∅) []
                                   {["filter" := VInt 12]} idle)) _)).
    repeat split.
    + vm_compute. lia.
    + refine (bool_decide_unpack _ _). vm_compute. exact I.
    + refine (bool_decide_unpack _ _). vm_compute. exact I.
    + refine (bool_decide_unpack _ _). vm_compute. exact I.
Defined.

(** C4 as stated fails twice.  A POST with an option named [method] is
    not forwarded: the call to [_request] is refused and nothing is sent.
    And a GET with non-empty options that lack [params] is not coerced
    when its keys are special: it is forwarded as given. *)
Lemma coercion_only_for_get_fails :
  POST (__init__ None None false ∅) [] {["method" := VStr "x"]} idle
  = (inl (TypeError "_request"), idle)
  ∧ GET (__init__ None None false ∅) [] {["headers" := VStr "h"]} idle
    = (inr VNone,
       mkWorld (respond idle)
         [Request RequestsModule "get" "" {["headers" := VStr "h"]}]).
Proof. by vm_compute. Qed.

(** * Further properties of the code *)

(** ** URLs with extra segments, named roots and empty segments *)

(** Two nodes with the same names along their chains and the same flag
    resolve alike, whatever extra segments are given. *)
Lemma _url_ext (x y : Hammock) (extra : list segment) :
  names x = names y → _append_slash x = _append_slash y →
  _url x extra = _url y extra.
Proof.
  intros Hnames Hslash. unfold _url. fold (names (_chain x extra)).
  fold (names (_chain y extra)).
  by rewrite !names__chain, Hnames, Hslash.
Qed.

Lemma append_slash__chain (self : Hammock) (args : list segment) :
  _append_slash (_chain self args) = _append_slash self.
Proof. exact (append_slash_apply_step self (Call args)). Qed.

Lemma _url__chain (self : Hammock) (args : list segment) :
  _url self args = _url (_chain self args) [].
Proof.
  unfold _url. by rewrite _chain_nil, append_slash__chain.
Qed.

(** X1: resolving a node with extra segments gives the string form of the
    node obtained by calling it with those segments. *)
Theorem url_extra_segments (self : Hammock) (args : list segment) :
  _url self args = __repr__ (__call__ self args).
Proof.
  unfold __repr__, __call__. apply _url__chain.
Qed.

Lemma chained_names_app (steps1 steps2 : list step) :
  chained_names (steps1 ++ steps2)
  = chained_names steps1 ++ chained_names steps2.
Proof. unfold chained_names. apply bind_app. Qed.

Lemma build_app (root : Hammock) (steps1 steps2 : list step) :
  build root (steps1 ++ steps2) = build (build root steps1) steps2.
Proof. unfold build. apply foldl_app. Qed.

(** X2: the URL of any chain, under any root: the root's own path, then
    the chained names and the extra segments in the order given, empty
    strings left out, joined by ["/"], with one ["/"] appended when the
    root's flag is set. *)
Theorem url_of_build (root : Hammock) (steps : list step)
    (extra : list segment) :
  _url (build root steps) extra
  = let path_comps :=
      reverse (names root)
      ++ filter (λ n, n ≠ "") (chained_names steps ++ (str <$> extra)) in
    if _append_slash root then join "/" path_comps +:+ "/"
    else join "/" path_comps.
Proof.
  rewrite _url__chain.
  change (_chain (build root steps) extra)
    with (build (build root steps) [Call extra]).
  rewrite <-build_app, _url_names, append_slash_build, names_build.
  rewrite chained_names_app, reverse_app, reverse_involutive.
  cbn zeta. replace (chained_names [Call extra]) with (str <$> extra); [done|].
  unfold chained_names. simpl. by rewrite (right_id_L [] (++)).
Qed.

(** X3: attribute access is a call with that one name, and calls compose:
    calling with [args1] and then with [args2] resolves like one call with
    all the segments. *)
Theorem call_compose (self : Hammock) (name : string)
    (args1 args2 extra : list segment) :
  __getattr__ self name = __call__ self [SStr name]
  ∧ _url (__call__ (__call__ self args1) args2) extra
    = _url (__call__ self (args1 ++ args2)) extra.
Proof.
  split; [done|]. unfold __call__. apply _url_ext.
  - rewrite !names__chain, fmap_app, filter_app, reverse_app.
    by rewrite (assoc_L (++)).
  - by rewrite !append_slash__chain.
Qed.

(** ** The shape of the chains that are built *)

(** X4: chaining only ever adds nodes in front of the receiver's own
    chain, which stays as it was: one node for each attribute access and
    for each segment of a call (empty segments too), named after them,
    newest first. *)
Theorem ancestors_build (root : Hammock) (steps : list step) :
  _name <$> ancestors (build root steps)
  = (Some <$> reverse (chained_names steps)) ++ (_name <$> ancestors root)
  ∧ drop (length (chained_names steps)) (ancestors (build root steps))
    = ancestors root.
Proof.
  destruct (ancestors_build_new root steps) as (new & Hanc & Hnames).
  rewrite Hanc, fmap_app, Hnames. split; [done|].
  apply (f_equal length) in Hnames.
  rewrite !length_fmap, length_reverse in Hnames.
  by rewrite <-Hnames, drop_app_length.
Qed.

(** X5: of the nodes a call with several segments creates, only the one it
    returns receives the receiver's session and stored attributes; those
    linked in between are left without a session and without attributes. *)
Theorem call_intermediate_nodes (self : Hammock) (args : list segment)
    (arg : segment) :
  Forall (λ p, _session p = None ∧ custom p = ∅)
    (take (length args) (tail (ancestors (__call__ self (args ++ [arg])))))
  ∧ _session (__call__ self (args ++ [arg])) = _session self.
Proof.
  split; [|apply copy_attributes_session].
  unfold __call__.
  rewrite _chain_link, ancestors_copy_attributes, foldl_app.
  cbn [foldl tail].
  rewrite (ancestors_unfold (link _ _ _)). cbn [link __init__ _parent tail].
  destruct (ancestors_foldl_link (_append_slash self) args self)
    as (new & Hanc & Hnames & Hbare).
  rewrite Hanc. apply (f_equal length) in Hnames.
  rewrite !length_fmap, length_reverse, length_fmap in Hnames.
  by rewrite <-Hnames, take_app_length.
Qed.

(** ** Finding and closing sessions *)

(** X6: the search is nearest-first over the nodes of the chain that have a
    non-empty name, the starting node included: it returns the session of
    the first of them that holds one, and nothing when none does. *)
Theorem probe_session_nearest_named (self : Hammock) :
  _probe_session self
  = head (omap _session
            (filter (λ h, truthy (_name h) = true) (ancestors self))).
Proof. by rewrite _probe_session_head, __iter___ancestors. Qed.

Lemma _probe_session_own (node : Hammock) (s : Session) :
  truthy (_name node) = true →
  _session node = Some s →
  _probe_session node = Some s.
Proof.
  intros Hname Hs. rewrite _probe_session_head, __iter___unfold, Hname.
  simpl. by rewrite Hs.
Qed.

(** X7: a node with a non-empty name that holds a session finds its own,
    whatever sessions its ancestors hold. *)
Theorem probe_session_own (node : Hammock) (s : Session) :
  truthy (_name node) = true →
  _session node = Some s →
  _probe_session node = Some s.
Proof. apply _probe_session_own. Qed.

Lemma probe_session_own_example :
  _probe_session
    (__init__ (Some "api")
       (Some (__init__ (Some "http://host") None false
                {["auth" := VStr "root"]}))
       false {["auth" := VStr "api"]})
  = Some (requests_session {["auth" := VStr "api"]}).
Proof.
  apply probe_session_own.
  - reflexivity.
  - reflexivity.
Defined.

Lemma session_build (root : Hammock) (steps : list step) :
  _session (build root steps) = _session root.
Proof.
  revert root. induction steps as [|s steps IH]; intros root; [done|].
  change (build root (s :: steps)) with (build (apply_step root s) steps).
  by rewrite IH, session_apply_step.
Qed.

Lemma _probe_session_build (root : Hammock) (steps : list step)
    (s : Session) :
  _session root = Some s →
  truthy (_name (build root steps)) = true →
  _probe_session (build root steps) = Some s.
Proof.
  intros Hs Hname. apply _probe_session_own; [done|].
  by rewrite session_build.
Qed.

(** X8: the session of a root, named or not, is found from every node
    with a non-empty name that is built from it by attribute access and
    calls, at any depth. *)
Theorem probe_session_from_descendant (root : Hammock) (steps : list step)
    (s : Session) :
  _session root = Some s →
  truthy (_name (build root steps)) = true →
  _probe_session (build root steps) = Some s.
Proof. apply _probe_session_build. Qed.

Lemma probe_session_from_descendant_example :
  _probe_session
    (build (__init__ None None false {["auth" := VStr "token"]})
       [Attr "api"; Call [SStr "v1"; SInt 42]])
  = Some (requests_session {["auth" := VStr "token"]}).
Proof.
  apply (probe_session_from_descendant
           (__init__ None None false {["auth" := VStr "token"]})
           [Attr "api"; Call [SStr "v1"; SInt 42]]).
  - reflexivity.
  - vm_compute. reflexivity.
Defined.

(** X9: a node whose name is absent or empty is passed over: the search
    for a session and the URL are those of its parent. *)
Theorem unnamed_node_transparent (node parent : Hammock)
    (extra : list segment) :
  truthy (_name node) = false →
  _parent node = Some parent →
  _append_slash node = _append_slash parent →
  _probe_session node = _probe_session parent
  ∧ _url node extra = _url parent extra.
Proof.
  intros Hname Hparent Hslash. split.
  - by rewrite !_probe_session_head, (__iter___unfold node), Hname, Hparent.
  - apply _url_ext; [|done].
    unfold names. by rewrite (__iter___unfold node), Hname, Hparent.
Qed.

Lemma unnamed_node_transparent_example :
  _probe_session
    (__call__ (__init__ (Some "http://host") None false
                 {["auth" := VStr "token"]}) [SStr ""])
  = _probe_session
      (__init__ (Some "http://host") None false {["auth" := VStr "token"]})
  ∧ _url (__call__ (__init__ (Some "http://host") None false
                      {["auth" := VStr "token"]}) [SStr ""])
      [SStr "users"]
    = _url (__init__ (Some "http://host") None false
              {["auth" := VStr "token"]}) [SStr "users"].
Proof.
  apply (unnamed_node_transparent
           (__call__ (__init__ (Some "http://host") None false
                        {["auth" := VStr "token"]}) [SStr ""])
           (__init__ (Some "http://host") None false
              {["auth" := VStr "token"]})
           [SStr "users"]).
  - vm_compute. reflexivity.
  - vm_compute. reflexivity.
  - vm_compute. reflexivity.
Defined.

Lemma probe_session_none (node : Hammock) :
  omap _session (ancestors node) = [] → _probe_session node = None.
Proof.
  intros Hnone. rewrite _probe_session_head, __iter___ancestors.
  induction (ancestors node) as [|h l IH]; [done|].
  simpl in Hnone. destruct (_session h) eqn:Hs; [done|].
  rewrite filter_cons. case_decide; [|by apply IH].
  simpl. rewrite Hs. by apply IH.
Qed.

(** X10: on a node with a non-empty name built from a root that holds a
    session, closing closes that session, once, with or without [probe],
    and performs nothing else. *)
Theorem close_session_from_descendant (root : Hammock) (steps : list step)
    (s : Session) (probe : bool) (w : world) :
  _session root = Some s →
  truthy (_name (build root steps)) = true →
  _close_session (build root steps) probe w = (inr (), record (Close s) w).
Proof.
  intros Hs Hname. unfold _close_session.
  rewrite (_probe_session_build root steps s) by done.
  rewrite session_build, Hs. by destruct probe.
Qed.

Lemma close_session_from_descendant_example :
  _close_session
    (build (__init__ None None false {["auth" := VStr "token"]})
       [Attr "api"]) true idle
  = (inr (),
     mkWorld (respond idle)
       [Close (requests_session {["auth" := VStr "token"]})]).
Proof.
  apply (close_session_from_descendant
           (__init__ None None false {["auth" := VStr "token"]})
           [Attr "api"] (requests_session {["auth" := VStr "token"]})
           true idle).
  - reflexivity.
  - vm_compute. reflexivity.
Defined.

(** X11: when no node of the chain holds a session, closing performs
    nothing, with or without [probe], and a request goes to the [requests]
    module. *)
Theorem no_session_on_chain (node : Hammock) (probe : bool)
    (method : string) (args : list segment) (kwargs : gmap string pyval)
    (w : world) :
  omap _session (ancestors node) = [] →
  _close_session node probe w = (inr (), w)
  ∧ _request node method args kwargs w
    = (respond w RequestsModule method (_url node args) kwargs,
       record (Request RequestsModule method (_url node args) kwargs) w).
Proof.
  intros Hnone. unfold _close_session, _request.
  rewrite (probe_session_none node Hnone).
  rewrite ancestors_unfold in Hnone. simpl in Hnone.
  destruct (_session node); [done|]. by destruct probe.
Qed.

Lemma no_session_on_chain_example :
  _close_session (build (__init__ None None false ∅) [Attr "api"]) true idle
  = (inr (), idle)
  ∧ _request (build (__init__ None None false ∅) [Attr "api"]) "post"
      [SInt 7] ∅ idle
    = (inr VNone,
       mkWorld (respond idle) [Request RequestsModule "post" "api/7" ∅]).
Proof.
  apply (no_session_on_chain
           (build (__init__ None None false ∅) [Attr "api"]) true "post"
           [SInt 7] ∅ idle).
  vm_compute. reflexivity.
Defined.

(** X12: a request issued on a node with a non-empty name built from a
    root that holds a session goes through that session, to the URL of the
    node extended by the extra segments, with the options as given; what
    the transport answers, a response or an error, is the result. *)
Theorem request_through_root_session (root : Hammock) (steps : list step)
    (s : Session) (method : string) (args : list segment)
    (kwargs : gmap string pyval) (w : world) :
  _session root = Some s →
  truthy (_name (build root steps)) = true →
  _request (build root steps) method args kwargs w
  = (respond w (SessionObject s) method (_url (build root steps) args) kwargs,
     record (Request (SessionObject s) method (_url (build root steps) args)
               kwargs) w).
Proof.
  intros Hs Hname. unfold _request.
  by rewrite (_probe_session_build root steps s).
Qed.

Lemma request_through_root_session_example :
  _request
    (build (__init__ (Some "http://host") None false
              {["auth" := VStr "token"]}) [Attr "users"])
    "delete" [SInt 42] ∅ idle
  = (inr VNone,
     mkWorld (respond idle)
       [Request (SessionObject (requests_session {["auth" := VStr "token"]}))
          "delete" "http://host/users/42" ∅]).
Proof.
  apply (request_through_root_session
           (__init__ (Some "http://host") None false
              {["auth" := VStr "token"]}) [Attr "users"]
           (requests_session {["auth" := VStr "token"]})
           "delete" [SInt 42] ∅ idle).
  - reflexivity.
  - vm_compute. reflexivity.
Defined.

(** ** More on dispatch *)

(** X13: a verb call either raises, leaving the world untouched, or
    performs exactly one request, on the transport found from the node,
    for the same method and the URL of the node with the extra segments,
    and returns what the transport answers.  What it raises of its own is
    a [TypeError] for an option named after a parameter of [aux] or of
    [_request], or the ambiguity exception.  It never closes a session
    and never performs a second request. *)
Theorem verb_performs_one_request (method : string) (hammock : Hammock)
    (args : list segment) (kwargs : gmap string pyval) (w : world) :
  (∃ e,
     bind_method method hammock args kwargs w = (inl e, w)
     ∧ (e = TypeError "aux" ∨ e = AmbiguousArguments
        ∨ e = TypeError "_request"))
  ∨ ∃ options,
      bind_method method hammock args kwargs w
      = (respond w (or_requests (_probe_session hammock)) method
           (_url hammock args) options,
         record (Request (or_requests (_probe_session hammock)) method
                   (_url hammock args) options) w).
Proof.
  assert (∀ o,
    (∃ e, call__request hammock method args o w = (inl e, w)
          ∧ (e = TypeError "aux" ∨ e = AmbiguousArguments
             ∨ e = TypeError "_request"))
    ∨ ∃ options,
        call__request hammock method args o w
        = (respond w (or_requests (_probe_session hammock)) method
             (_url hammock args) options,
           record (Request (or_requests (_probe_session hammock)) method
                     (_url hammock args) options) w)) as Hcall.
  { intros o. unfold call__request.
    destruct (keyword_clash _ o); [left|right]; eauto. }
  destruct (decide ("hammock" ∈ dom kwargs)) as [Hin|Hhammock].
  { left. exists (TypeError "aux"). by rewrite bind_method_clash; auto. }
  destruct (decide (spec_coercion_applies method kwargs)) as [Happlies|Hnot].
  - destruct Happlies as (-> & Hne%map_size_non_empty_iff & Hparams).
    rewrite bind_method_get; [|done|done|by apply not_elem_of_dom].
    rewrite spec_coercion_rule_cases.
    repeat case_bool_decide; [|apply Hcall..].
    left. exists AmbiguousArguments. auto.
  - rewrite bind_method_forward by done. apply Hcall.
Qed.

(** X14: the transport is left unreached exactly when an option is named
    [hammock], or the method is GET, the options have no [params] key and
    they hold both a special and a non-special key, or the options are
    forwarded uncoerced (another verb, or [params] among them) and one of
    them is named [self] or [method]. *)
Theorem request_skipped_iff (method : string) (hammock : Hammock)
    (args : list segment) (kwargs : gmap string pyval) (w : world) :
  log (bind_method method hammock args kwargs w).2 = log w
  ↔ "hammock" ∈ dom kwargs
    ∨ (method = "get"
       ∧ ("params" ∉ dom kwargs)
       ∧ Exists (λ k, k ∈ REQUESTS_SPECIAL_KEYS) (keys kwargs)
       ∧ Exists (λ k, k ∉ REQUESTS_SPECIAL_KEYS) (keys kwargs))
    ∨ ((method ≠ "get" ∨ "params" ∈ dom kwargs)
       ∧ ("self" ∈ dom kwargs ∨ "method" ∈ dom kwargs)).
Proof.
  destruct parameters_not_special as (_ & Hself & Hmethod & _).
  assert (∀ o, log (call__request hammock method args o w).2 = log w
               ↔ "self" ∈ dom o ∨ "method" ∈ dom o) as Hcall.
  { intros o.
    destruct (decide ("self" ∈ dom o ∨ "method" ∈ dom o)) as [Hin|Hout].
    - by rewrite call__request_clash.
    - rewrite call__request_bound by tauto.
      unfold _request, session_request. cbn [snd]. split; [|done].
      intros H. by destruct (log_record_neq _ _ H). }
  destruct (decide ("hammock" ∈ dom kwargs)) as [Hin|Hhammock].
  { rewrite bind_method_clash by done. split; [by left|done]. }
  destruct (decide (spec_coercion_applies method kwargs)) as [Happlies|Hnot].
  - destruct Happlies as (-> & Hne%map_size_non_empty_iff & Hparams).
    rewrite bind_method_get; [|done|done|by apply not_elem_of_dom].
    rewrite spec_coercion_rule_cases.
    case_bool_decide as Hother; [case_bool_decide as Hspecial|].
    + split; [|done]. intros _. right. left. done.
    + rewrite call__request_params.
      unfold _request, session_request. cbn [snd]. split.
      * intros H. by destruct (log_record_neq _ _ H).
      * intros [?|[(_ & _ & ? & _)|[[?|?] _]]]; done.
    + rewrite Hcall. split.
      * intros [Hin|Hin]; destruct Hother; apply Exists_exists;
          apply elem_of_dom, elem_of_keys in Hin; eauto.
      * intros [?|[(_ & _ & _ & ?)|[[?|?] _]]]; done.
  - rewrite bind_method_forward by done. rewrite Hcall. split.
    + intros Hin. right. right. split; [|done].
      destruct (decide (method = "get")) as [->|]; [|by left].
      destruct (decide ("params" ∈ dom kwargs)); [by right|].
      destruct Hnot. repeat split; [|done].
      apply map_size_non_empty_iff. intros ->.
      rewrite dom_empty_L in Hin.
      destruct Hin as [Hin|Hin]; by apply not_elem_of_empty in Hin.
    + intros [?|[(-> & Hparams & Hspecial & _)|[_ ?]]]; [done| |done].
      destruct Hnot. repeat split; [|done].
      apply Exists_exists in Hspecial as (k & [v Hv]%elem_of_keys & _).
      apply map_size_non_empty_iff. intros ->.
      by rewrite lookup_empty in Hv.
Qed.

(** X15: options made of recognised transport keys only reach the
    transport as they are, on a GET too. *)
Theorem get_special_keys_forwarded (hammock : Hammock) (args : list segment)
    (kwargs : gmap string pyval) (w : world) :
  Forall (λ k, k ∈ REQUESTS_SPECIAL_KEYS) (keys kwargs) →
  GET hammock args kwargs w
  = (respond w (or_requests (_probe_session hammock)) "get"
       (_url hammock args) kwargs,
     record (Request (or_requests (_probe_session hammock)) "get"
               (_url hammock args) kwargs) w).
Proof.
  intros Hkeys. unfold GET.
  destruct parameters_not_special as (Hhammock & Hself & Hmethod & _).
  apply (special_keys_only_not_elem kwargs) in Hhammock, Hself, Hmethod;
    [|done..].
  destruct (decide (spec_coercion_applies "get" kwargs)) as [Happlies|Hnot].
  - destruct Happlies as (_ & Hne%map_size_non_empty_iff & Hparams).
    rewrite bind_method_get; [|done|done|by apply not_elem_of_dom].
    rewrite spec_coercion_rule_cases.
    case_bool_decide as Hother; [|by rewrite call__request_bound].
    apply Exists_exists in Hother as (k & Hk & Hother).
    by eapply Forall_forall in Hkeys.
  - by rewrite bind_method_forward, call__request_bound.
Qed.

Lemma get_special_keys_forwarded_example :
  GET (__init__ None None false ∅) [SStr "users"]
    {["headers" := VDict {["Accept" := VStr "json"]}; "timeout" := VInt 5]}
    idle
  = (inr VNone,
     mkWorld (respond idle)
       [Request RequestsModule "get" "users"
          {["headers" := VDict {["Accept" := VStr "json"]};
            "timeout" := VInt 5]}]).
Proof.
  apply (get_special_keys_forwarded (__init__ None None false ∅)
           [SStr "users"]
           {["headers" := VDict {["Accept" := VStr "json"]};
             "timeout" := VInt 5]} idle).
  refine (bool_decide_unpack _ _). vm_compute. exact I.
Defined.

(** X16: the shorthand and the explicit form are one request: a GET given
    non-special options only, none of them named [hammock], does what the
    same GET does when given these options under [params]. *)
Theorem get_shorthand (hammock : Hammock) (args : list segment)
    (kwargs : gmap string pyval) (w : world) :
  kwargs ≠ ∅ →
  kwargs !! "hammock" = None →
  Forall (λ k, k ∉ REQUESTS_SPECIAL_KEYS) (keys kwargs) →
  GET hammock args kwargs w
  = GET hammock args {["params" := VDict kwargs]} w.
Proof.
  intros Hne Hhammock Hkeys. unfold GET.
  destruct parameters_not_special as (_ & _ & _ & Hspecial).
  assert (kwargs !! "params" = None) as Hparams.
  { destruct (kwargs !! "params") as [v|] eqn:E; [|done].
    assert ("params" ∈ keys kwargs) as Hin by (apply elem_of_keys; eauto).
    by eapply Forall_forall in Hkeys. }
  rewrite bind_method_get; [|by apply not_elem_of_dom|done..].
  rewrite (bind_method_forward "get" hammock args {["params" := VDict kwargs]}).
  - by rewrite spec_coercion_rule_bundle.
  - rewrite dom_singleton_L. by intros [=]%elem_of_singleton.
  - intros (_ & _ & Hin). apply Hin. rewrite dom_singleton_L.
    by apply elem_of_singleton.
Qed.

Lemma get_shorthand_example :
  GET (__init__ None None false ∅) [] {["filter" := VInt 12]} idle
  = GET (__init__ None None false ∅) []
      {["params" := VDict {["filter" := VInt 12]}]} idle.
Proof.
  apply (get_shorthand (__init__ None None false ∅) []
           {["filter" := VInt 12]} idle).
  - apply truthy_dict_true. reflexivity.
  - reflexivity.
  - refine (bool_decide_unpack _ _). vm_compute. exact I.
Defined.
